(** * Residual functors of [bundle/error/absolute_motion_errors.h]

    A shallow embedding of the error terms that OpenSfM hands to the
    least-squares solver, together with the properties its specification
    states about them.

    The functors are C++ templates over a scalar type [T].  They are
    embedded at the exact real field: [T] and [double] are both [R], the
    arithmetic operators are those of [R], [sqrt], [log] and [asin] are the
    real functions of the Standard Library, and a comparison in the source
    is the corresponding decision on [R].  Rounding, infinities and NaN of
    the binary64 instantiation are outside this model.

    A parameter block ([const T*]) is a list of reals read with [nth];
    an array of blocks ([T const* const*]) is a list of lists.  The blocks
    the solver passes have the sizes registered with the cost function, so
    every read of the source is in range; the default of [nth] is what the
    model reads elsewhere. *)

From Stdlib Require Import Reals Lra List ZArith Bool.
Import ListNotations.

Open Scope R_scope.

(** ** Scalars, vectors and parameter blocks *)

Definition int := Z.

Definition Block := list R.
Definition Blocks := list Block.

(** [b[i]] for a block pointer [b]. *)
Definition at_ (b : Block) (i : nat) : R := nth i b 0.

(** [b + k] for a block pointer [b]. *)
Definition offset (b : Block) (k : nat) : Block := skipn k b.

(** [p[i]] for an array of block pointers [p]. *)
Definition block (p : Blocks) (i : nat) : Block := nth i p [].

(** [Vec3<T>]: a fixed-size vector of three scalars. *)
Record Vec3 : Type := mkVec3 { v0 : R; v1 : R; v2 : R }.

Definition coeff (v : Vec3) (i : nat) : R :=
  match i with
  | O => v0 v
  | S O => v1 v
  | _ => v2 v
  end.

Definition set_coeff (v : Vec3) (i : nat) (x : R) : Vec3 :=
  match i with
  | O => mkVec3 x (v1 v) (v2 v)
  | S O => mkVec3 (v0 v) x (v2 v)
  | _ => mkVec3 (v0 v) (v1 v) x
  end.

(** The three coefficients in storage order, as written to [T* r]. *)
Definition data (v : Vec3) : list R := [v0 v; v1 v; v2 v].

Definition vsub (a b : Vec3) : Vec3 :=
  mkVec3 (v0 a - v0 b) (v1 a - v1 b) (v2 a - v2 b).

Definition vscale (s : R) (a : Vec3) : Vec3 :=
  mkVec3 (s * v0 a) (s * v1 a) (s * v2 a).

Definition vdiv (a : Vec3) (s : R) : Vec3 :=
  mkVec3 (v0 a / s) (v1 a / s) (v2 a / s).

Definition dot (a b : Vec3) : R :=
  v0 a * v0 b + v1 a * v1 b + v2 a * v2 b.

Definition squaredNorm (a : Vec3) : R :=
  v0 a * v0 a + v1 a * v1 a + v2 a * v2 a.

Definition norm (a : Vec3) : R := sqrt (squaredNorm a).

(** ** diff_between_angles *)

Definition M_PI : R := PI.

Definition diff_between_angles (a b : R) : R :=
  let d := a - b in
  if Rgt_dec d M_PI then d - 2 * M_PI
  else if Rlt_dec d (- M_PI) then d + 2 * M_PI
  else d.

(** ** Comparisons used as branch conditions *)

Definition Rltb (x y : R) : bool := if Rlt_dec x y then true else false.
Definition Rleb (x y : R) : bool := if Rle_dec x y then true else false.

(** ** Library routines the functors call

    [normalized] is Eigen's [MatrixBase::normalized]: the vector divided by
    its norm when the squared norm is positive, the vector itself otherwise.
    [CrossProduct] is [ceres::CrossProduct].  [log] is the natural
    logarithm of [<cmath>]. *)

Definition normalized (n : Vec3) : Vec3 :=
  let z := squaredNorm n in
  if Rgt_dec z 0 then vdiv n (sqrt z) else n.

Definition CrossProduct (x y : Vec3) : Vec3 :=
  mkVec3 (v1 x * v2 y - v2 x * v1 y)
         (v2 x * v0 y - v0 x * v2 y)
         (v0 x * v1 y - v1 x * v0 y).

Definition log (x : R) : R := ln x.

(** ** PositionConstraintType *)

(** Modelled from the spec: the enumeration [PositionConstraintType] is
    declared in [bundle/bundle_adjuster.h], which is not part of the
    sources at hand.  The spec describes it as a bitmask over the three
    axes; each axis is one bit, and the combinations are their unions. *)
Module PositionConstraintType.
Definition X : int := 1%Z.
Definition Y : int := 2%Z.
Definition XY : int := 3%Z.
Definition XYZ : int := 7%Z.
Definition Z : int := 4%Z.
End PositionConstraintType.

(** ** AbsolutePositionError *)

Module AbsolutePositionError.

(** [PosFunc] is the template parameter: a functor from the parameter
    blocks to the predicted position. *)
Definition PosFunc := Blocks -> Vec3.

Record t : Type := mk {
  pos_func_ : PosFunc;
  pos_prior_ : Vec3;
  scale_xy_ : R;
  scale_z_ : R;
  has_std_deviation_param_ : bool;
  type_ : int
}.

Definition ctor (pos_func : PosFunc) (pos_prior : Vec3)
    (std_deviation_horizontal std_deviation_vertical : R)
    (has_std_deviation_param : bool) (type : int) : t :=
  {| pos_func_ := pos_func;
     pos_prior_ := pos_prior;
     scale_xy_ := 1 / std_deviation_horizontal;
     scale_z_ := 1 / std_deviation_vertical;
     has_std_deviation_param_ := has_std_deviation_param;
     type_ := type |}.

Definition HasFlag (self : t) (flag : int) : bool :=
  (Z.land (type_ self) flag =? flag)%Z.

(** Lines 30-37: the difference to the prior and its scaling. *)
Definition scaled (self : t) (p : Blocks) : Vec3 :=
  let residual := vsub (pos_prior_ self) (pos_func_ self p) in
  if has_std_deviation_param_ self then
    vdiv residual (at_ (block p 1) 0)
  else
    mkVec3 (v0 residual * scale_xy_ self)
           (v1 residual * scale_xy_ self)
           (v2 residual * scale_z_ self).

Definition axises : list int :=
  [PositionConstraintType.X; PositionConstraintType.Y;
   PositionConstraintType.Z].

(** Lines 39-47: the loop over the three axes. *)
Definition filter_axises (self : t) (residual : Vec3) : Vec3 :=
  fold_left
    (fun (res : Vec3) (i : nat) =>
       if negb (HasFlag self (nth i axises 0%Z))
       then set_coeff res i (coeff res i * 0)
       else res)
    (seq 0 (length axises)) residual.

(** [operator()]: the returned flag and the residual written to [r]. *)
Definition operator_call (self : t) (p : Blocks) : bool * Vec3 :=
  (true, filter_axises self (scaled self p)).

End AbsolutePositionError.

(** ** UnitTranslationPriorError *)

Module UnitTranslationPriorError.

Definition operator_call (shot : Block) : bool * R :=
  let t := offset shot 3 in
  (true, log (at_ t 0 * at_ t 0 + at_ t 1 * at_ t 1 + at_ t 2 * at_ t 2)).

End UnitTranslationPriorError.

(** ** Collaborators declared in other headers

    [FUNCTOR_NOT_SET], [ShotRotationFunctor] and [ShotPositionFunctor]
    come from [bundle/error/position_functors.h], [RotatePoint] from
    [bundle/error/error_utils.h], [AngleAxisRotatePoint] from Ceres and
    [atan2] from [<cmath>].  The functors below only call them, so they are
    an interface here, and every property holds for each implementation. *)

Class Collaborators : Type := {
  FUNCTOR_NOT_SET : int;
  ShotRotationFunctor : int -> int -> Blocks -> Vec3;
  ShotPositionFunctor : int -> int -> Blocks -> Vec3;
  RotatePoint : Vec3 -> Vec3 -> Vec3;
  AngleAxisRotatePoint : Vec3 -> Vec3 -> Vec3;
  atan2 : R -> R -> R
}.

(** ** UpVectorError *)

Module UpVectorError.
Section WithCollaborators.
Context `{Collaborators}.

Record t : Type := mk {
  acceleration_ : Vec3;
  is_rig_shot_ : bool;
  scale_ : R
}.

Definition ctor (acceleration : Vec3) (std_deviation : R)
    (is_rig_shot : bool) : t :=
  {| acceleration_ := normalized acceleration;
     is_rig_shot_ := is_rig_shot;
     scale_ := 1 / std_deviation |}.

Definition operator_call (self : t) (p : Blocks) : bool * Vec3 :=
  let instance_index := 0%Z in
  let camera_index := if is_rig_shot_ self then 1%Z else FUNCTOR_NOT_SET in
  let R := ShotRotationFunctor instance_index camera_index p in
  let acceleration := acceleration_ self in
  let z_world := RotatePoint R acceleration in
  let z_axis := mkVec3 0 0 1 in
  (true, vscale (scale_ self) (vsub z_world z_axis)).

End WithCollaborators.
End UpVectorError.

(** ** PanAngleError *)

Module PanAngleError.
Section WithCollaborators.
Context `{Collaborators}.

Record t : Type := mk { angle_ : R; scale_ : R }.

Definition ctor (angle std_deviation : R) : t :=
  {| angle_ := angle; scale_ := 1 / std_deviation |}.

Definition operator_call (self : t) (shot : Block) : bool * R :=
  let R := ShotRotationFunctor 0%Z FUNCTOR_NOT_SET [shot] in
  let z_axis := mkVec3 0 0 1 in
  let z_world := RotatePoint R z_axis in
  if Rltb (Rabs (v0 z_world)) 1e-8 && Rltb (Rabs (v1 z_world)) 1e-8 then
    (true, 0)
  else
    let predicted_angle := atan2 (v0 z_world) (v1 z_world) in
    (true,
     scale_ self * diff_between_angles predicted_angle (angle_ self)).

End WithCollaborators.
End PanAngleError.

(** ** RollAngleError *)

Module RollAngleError.
Section WithCollaborators.
Context `{Collaborators}.

Record t : Type := mk { angle_ : R; scale_ : R }.

Definition ctor (angle std_deviation : R) : t :=
  {| angle_ := angle; scale_ := 1 / std_deviation |}.

Definition operator_call (self : t) (shot : Block) : bool * R :=
  let R := ShotRotationFunctor 0%Z FUNCTOR_NOT_SET [shot] in
  let ex := mkVec3 1 0 0 in
  let ez := mkVec3 0 0 1 in
  let Rt_ex := AngleAxisRotatePoint R ex in
  let Rt_ez := AngleAxisRotatePoint R ez in
  let a := mkVec3 (v1 Rt_ez) (- v0 Rt_ez) 0 in
  let la := sqrt (v0 a * v0 a + v1 a * v1 a) in
  let eps := 1e-5 in
  if Rltb la eps then (true, 0)
  else
    let a := mkVec3 (v0 a / la) (v1 a / la) (v2 a) in
    let b := CrossProduct Rt_ex a in
    let sin_roll :=
      v0 Rt_ez * v0 b + v1 Rt_ez * v1 b + v2 Rt_ez * v2 b in
    if Rleb sin_roll (- (1.0 - eps)) then (true, 0)
    else
      let predicted_angle := asin sin_roll in
      (true,
       scale_ self * diff_between_angles predicted_angle (angle_ self)).

End WithCollaborators.
End RollAngleError.

(** ** HeatmapdCostFunctor *)

Module HeatmapdCostFunctor.
Section WithCollaborators.
Context `{Collaborators}.

(** [interpolator_] is the referenced [ceres::BiCubicInterpolator]; the
    field holds its [Evaluate], from (row, column) to the value. *)
Record t : Type := mk {
  interpolator_ : R -> R -> R;
  x_offset_ : R;
  y_offset_ : R;
  height_ : R;
  width_ : R;
  resolution_ : R;
  scale_ : R
}.

Definition ctor (interpolator : R -> R -> R)
    (x_offset y_offset height width resolution std_deviation : R) : t :=
  {| interpolator_ := interpolator;
     x_offset_ := x_offset;
     y_offset_ := y_offset;
     height_ := height;
     width_ := width;
     resolution_ := resolution;
     scale_ := 1 / std_deviation |}.

(** Lines 262-267: the row and column handed to the interpolator. *)
Definition row_col (self : t) (p : Block) : R * R :=
  let position := ShotPositionFunctor 0%Z FUNCTOR_NOT_SET [p] in
  let x_coor := v0 position - x_offset_ self in
  let y_coor := v1 position - y_offset_ self in
  let row := height_ self / 2 - (y_coor / resolution_ self) in
  let col := width_ self / 2 + (x_coor / resolution_ self) in
  (row, col).

Definition operator_call (self : t) (p : Block) : bool * R :=
  let '(row, col) := row_col self p in
  let r0 := interpolator_ self row col in
  (true, r0 * scale_ self).

End WithCollaborators.
End HeatmapdCostFunctor.

(** ** A concrete implementation of the collaborators

    Used to run the functors on examples.  Blocks have the layout of a
    shot that is not part of a rig: rotation at entries 0-2, translation
    at entries 3-5.  The rotation is the first-order form [x + R x x]
    that Ceres uses next to the zero rotation, the position is the
    negated translation, which is the optical centre at the zero
    rotation, and [atan2] is the quadrant-aware arctangent written with
    [atan]. *)

Definition atan2_by_cases (y x : R) : R :=
  if Rlt_dec 0 x then atan (y / x)
  else if Rlt_dec x 0 then
    if Rle_dec 0 y then atan (y / x) + PI else atan (y / x) - PI
  else if Rlt_dec 0 y then PI / 2
  else if Rlt_dec y 0 then - (PI / 2)
  else 0.

Definition first_order_rotate (R x : Vec3) : Vec3 :=
  let c := CrossProduct R x in
  mkVec3 (v0 x + v0 c) (v1 x + v1 c) (v2 x + v2 c).

Definition plain_shot : Collaborators :=
  {| FUNCTOR_NOT_SET := (-1)%Z;
     ShotRotationFunctor := fun i _ p =>
       let b := block p (Z.to_nat i) in
       mkVec3 (at_ b 0) (at_ b 1) (at_ b 2);
     ShotPositionFunctor := fun i _ p =>
       let b := block p (Z.to_nat i) in
       mkVec3 (- at_ b 3) (- at_ b 4) (- at_ b 5);
     RotatePoint := first_order_rotate;
     AngleAxisRotatePoint := first_order_rotate;
     atan2 := atan2_by_cases |}.

(** ** TiltAngleError *)

Module TiltAngleError.
Section WithCollaborators.
Context `{Collaborators}.

Record t : Type := mk { angle_ : R; scale_ : R }.

Definition ctor (angle std_deviation : R) : t :=
  {| angle_ := angle; scale_ := 1 / std_deviation |}.

Definition operator_call (self : t) (shot : Block) : bool * R :=
  let R := ShotRotationFunctor 0%Z FUNCTOR_NOT_SET [shot] in
  let ez := mkVec3 0 0 1 in
  let Rt_ez := AngleAxisRotatePoint R ez in
  let l := sqrt (v0 Rt_ez * v0 Rt_ez + v1 Rt_ez * v1 Rt_ez) in
  let predicted_angle := - atan2 (v2 Rt_ez) l in
  (true, scale_ self * diff_between_angles predicted_angle (angle_ self)).

End WithCollaborators.
End TiltAngleError.

(** ** PositionPriorError *)

Definition vadd (a b : Vec3) : Vec3 :=
  mkVec3 (v0 a + v0 b) (v1 a + v1 b) (v2 a + v2 b).

(** [Eigen::Map<Vec3d>] over a pointer: its first three entries. *)
Definition Map_Vec3 (b : Block) : Vec3 :=
  mkVec3 (at_ b 0) (at_ b 1) (at_ b 2).

Module PositionPriorError.
Section WithCollaborators.
Context `{Collaborators}.

(** [Bias::Parameter::SCALE], the offset of the scale entry in a bias
    block; its declaration is in another header. *)
Variable SCALE : nat.

Record t : Type := mk { position_prior_ : Block; scale_ : R }.

Definition ctor (position_prior : Block) (std_deviation : R) : t :=
  {| position_prior_ := position_prior; scale_ := 1 / std_deviation |}.

Definition operator_call (self : t) (shot bias : Block) : bool * Vec3 :=
  let R := ShotRotationFunctor 0%Z FUNCTOR_NOT_SET [bias] in
  let t := ShotPositionFunctor 0%Z FUNCTOR_NOT_SET [bias] in
  let scale := offset bias SCALE in
  let prior := Map_Vec3 (position_prior_ self) in
  let optical_center := ShotPositionFunctor 0%Z FUNCTOR_NOT_SET [shot] in
  (true,
   vscale (scale_ self)
     (vsub optical_center
        (vadd (vscale (at_ scale 0) (RotatePoint R prior)) t))).

End WithCollaborators.
End PositionPriorError.

(** ** PointPositionPriorError *)

Module PointPositionPriorError.

Record t : Type := mk { position_ : Block; scale_ : R }.

Definition ctor (position : Block) (std_deviation : R) : t :=
  {| position_ := position; scale_ := 1 / std_deviation |}.

Definition operator_call (self : t) (p : Block) : bool * Vec3 :=
  (true,
   mkVec3 (scale_ self * (at_ p 0 - at_ (position_ self) 0))
          (scale_ self * (at_ p 1 - at_ (position_ self) 1))
          (scale_ self * (at_ p 2 - at_ (position_ self) 2))).

End PointPositionPriorError.

(** * Properties *)

(** ** diff_between_angles *)

Lemma diff_between_angles_gt (a b : R) :
  a - b > M_PI -> diff_between_angles a b = a - b - 2 * M_PI.
Proof.
  intros Hgt. unfold diff_between_angles.
  destruct (Rgt_dec (a - b) M_PI) as [_ | N]; [reflexivity | contradiction].
Qed.

Lemma diff_between_angles_lt (a b : R) :
  a - b < - M_PI -> diff_between_angles a b = a - b + 2 * M_PI.
Proof.
  intros Hlt. unfold diff_between_angles.
  pose proof PI_RGT_0 as Hpi. unfold M_PI in *.
  destruct (Rgt_dec (a - b) PI) as [G | _]; [lra |].
  destruct (Rlt_dec (a - b) (- PI)) as [_ | N]; [reflexivity | contradiction].
Qed.

Lemma diff_between_angles_mid (a b : R) :
  - M_PI <= a - b <= M_PI -> diff_between_angles a b = a - b.
Proof.
  intros [Hl Hu]. unfold diff_between_angles.
  destruct (Rgt_dec (a - b) M_PI) as [G | _]; [lra |].
  destruct (Rlt_dec (a - b) (- M_PI)) as [L | _]; [lra | reflexivity].
Qed.

(** The three branches, each with its guard. *)
Lemma diff_between_angles_branches (a b : R) :
  (a - b > M_PI /\ diff_between_angles a b = a - b - 2 * M_PI) \/
  (a - b < - M_PI /\ diff_between_angles a b = a - b + 2 * M_PI) \/
  (- M_PI <= a - b <= M_PI /\ diff_between_angles a b = a - b).
Proof.
  destruct (Rgt_dec (a - b) M_PI) as [G | NG].
  - left. split; [exact G | now apply diff_between_angles_gt].
  - destruct (Rlt_dec (a - b) (- M_PI)) as [L | NL].
    + right; left. split; [exact L | now apply diff_between_angles_lt].
    + right; right.
      assert (Hr : - M_PI <= a - b <= M_PI) by lra.
      split; [exact Hr | now apply diff_between_angles_mid].
Qed.

(** C1, as stated, fails: the result is not always in (-pi, pi].  A
    difference of exactly -pi is returned as it is, and a difference of
    4 pi is remapped once, to 2 pi. *)
Lemma diff_between_angles_range_counterexample :
  ~ (- M_PI < diff_between_angles (- M_PI) 0 <= M_PI) /\
  ~ (- M_PI < diff_between_angles (4 * M_PI) 0 <= M_PI).
Proof.
  pose proof PI_RGT_0 as Hpi. unfold M_PI in *.
  split.
  - rewrite diff_between_angles_mid by (unfold M_PI; lra). lra.
  - rewrite diff_between_angles_gt by (unfold M_PI; lra).
    unfold M_PI. lra.
Qed.

(** C1 (amended): [diff_between_angles a b] is [a - b], remapped by one
    subtraction of 2 pi when [a - b > pi] and by one addition of 2 pi when
    [a - b < -pi].  It is 0 at equal angles and [- eps] at
    [a = b + 2 pi - eps] for [0 < eps < pi].  The result lies in (-pi, pi]
    exactly when [-3 pi < a - b <= 3 pi] and [a - b <> -pi]; it lies in the
    closed interval [-pi, pi] exactly when [-3 pi <= a - b <= 3 pi]. *)
Theorem diff_between_angles_spec (a b : R) :
  ((a - b > M_PI /\ diff_between_angles a b = a - b - 2 * M_PI) \/
   (a - b < - M_PI /\ diff_between_angles a b = a - b + 2 * M_PI) \/
   (- M_PI <= a - b <= M_PI /\ diff_between_angles a b = a - b)) /\
  diff_between_angles a a = 0 /\
  (forall eps : R, 0 < eps < M_PI ->
     diff_between_angles (b + 2 * M_PI - eps) b = - eps) /\
  (- M_PI < diff_between_angles a b <= M_PI <->
     - (3 * M_PI) < a - b <= 3 * M_PI /\ a - b <> - M_PI) /\
  (- M_PI <= diff_between_angles a b <= M_PI <->
     - (3 * M_PI) <= a - b <= 3 * M_PI).
Proof.
  pose proof PI_RGT_0 as Hpi.
  split; [apply diff_between_angles_branches |].
  split.
  { rewrite diff_between_angles_mid; unfold M_PI; lra. }
  split.
  { intros eps [He1 He2].
    rewrite diff_between_angles_gt; unfold M_PI in *; lra. }
  destruct (diff_between_angles_branches a b)
    as [[G E] | [[L E] | [[Hl Hu] E]]];
    rewrite E; unfold M_PI in *; split; split; intros; lra.
Qed.

(** The amended C1 at [a = 1], [b = 0] and [eps = pi / 2]. *)
Lemma diff_between_angles_spec_witness :
  (- M_PI < diff_between_angles 1 0 <= M_PI) /\
  diff_between_angles (0 + 2 * M_PI - M_PI / 2) 0 = - (M_PI / 2).
Proof.
  pose proof PI_RGT_0 as Hpi. pose proof PI2_1 as Hpi2.
  destruct (diff_between_angles_spec 1 0) as (_ & _ & Heps & Hrange & _).
  split.
  - apply Hrange. unfold M_PI. lra.
  - apply Heps. unfold M_PI. lra.
Defined.

(** ** AbsolutePositionError *)

Section AbsolutePositionErrorProperties.
Import AbsolutePositionError.

(** The loop over [axises], one coefficient at a time. *)
Lemma filter_axises_coeffs (self : t) (r : Vec3) :
  filter_axises self r =
  mkVec3 (if HasFlag self PositionConstraintType.X then v0 r else 0)
         (if HasFlag self PositionConstraintType.Y then v1 r else 0)
         (if HasFlag self PositionConstraintType.Z then v2 r else 0).
Proof.
  unfold filter_axises. cbn [axises length seq fold_left nth].
  destruct r as [x y z].
  destruct (HasFlag self PositionConstraintType.X);
    destruct (HasFlag self PositionConstraintType.Y);
    destruct (HasFlag self PositionConstraintType.Z);
    cbn; f_equal; ring.
Qed.

Lemma filter_axises_coeff (self : t) (r : Vec3) (i : nat) :
  (i < 3)%nat ->
  coeff (filter_axises self r) i =
  if HasFlag self (nth i axises 0%Z) then coeff r i else 0.
Proof.
  intros Hi. rewrite filter_axises_coeffs.
  destruct i as [| [| [| i]]]; try reflexivity.
  exfalso. do 3 apply Nat.succ_lt_mono in Hi. inversion Hi.
Qed.

Lemma HasFlag_only_Y (self : t) :
  type_ self = PositionConstraintType.Y ->
  HasFlag self PositionConstraintType.X = false /\
  HasFlag self PositionConstraintType.Y = true /\
  HasFlag self PositionConstraintType.Z = false.
Proof.
  intros HY. unfold HasFlag. rewrite HY. repeat split; reflexivity.
Qed.

(** C2: without the standard-deviation parameter and with the three
    axes enabled, the residual is prior minus predicted position, X and Y
    times [1 / std_deviation_horizontal] and Z times
    [1 / std_deviation_vertical]; for prior (0,0,10), deviations 1 and 2
    and predicted position (1,0,10) it is (-1, 0, 0). *)
Theorem AbsolutePositionError_fixed_scales
    (pos_func : PosFunc) (pos_prior : Vec3)
    (std_deviation_horizontal std_deviation_vertical : R)
    (type : int) (p : Blocks) :
  HasFlag (ctor pos_func pos_prior std_deviation_horizontal
             std_deviation_vertical false type)
          PositionConstraintType.X = true ->
  HasFlag (ctor pos_func pos_prior std_deviation_horizontal
             std_deviation_vertical false type)
          PositionConstraintType.Y = true ->
  HasFlag (ctor pos_func pos_prior std_deviation_horizontal
             std_deviation_vertical false type)
          PositionConstraintType.Z = true ->
  operator_call
    (ctor pos_func pos_prior std_deviation_horizontal
       std_deviation_vertical false type) p =
  (true,
   mkVec3
     ((v0 pos_prior - v0 (pos_func p)) * (1 / std_deviation_horizontal))
     ((v1 pos_prior - v1 (pos_func p)) * (1 / std_deviation_horizontal))
     ((v2 pos_prior - v2 (pos_func p)) * (1 / std_deviation_vertical))) /\
  (pos_prior = mkVec3 0 0 10 ->
   std_deviation_horizontal = 1 -> std_deviation_vertical = 2 ->
   pos_func p = mkVec3 1 0 10 ->
   operator_call
     (ctor pos_func pos_prior std_deviation_horizontal
        std_deviation_vertical false type) p =
   (true, mkVec3 (-1) 0 0)).
Proof.
  intros HX HY HZ.
  assert (E : operator_call
    (ctor pos_func pos_prior std_deviation_horizontal
       std_deviation_vertical false type) p =
    (true,
     mkVec3
       ((v0 pos_prior - v0 (pos_func p)) * (1 / std_deviation_horizontal))
       ((v1 pos_prior - v1 (pos_func p)) * (1 / std_deviation_horizontal))
       ((v2 pos_prior - v2 (pos_func p)) * (1 / std_deviation_vertical)))).
  { unfold operator_call. rewrite filter_axises_coeffs, HX, HY, HZ.
    reflexivity. }
  split; [exact E |].
  intros Hprior Hh Hv Hpos. rewrite E, Hprior, Hh, Hv, Hpos. cbn.
  do 2 f_equal; lra.
Qed.

(** C2 at the end-to-end example of the specification. *)
Lemma AbsolutePositionError_fixed_scales_witness :
  operator_call
    (ctor (fun _ => mkVec3 1 0 10) (mkVec3 0 0 10) 1 2 false
       PositionConstraintType.XYZ)
    [[0; 0; 0; 0; 0; 0]] =
  (true, mkVec3 (-1) 0 0).
Proof.
  apply (AbsolutePositionError_fixed_scales
           (fun _ => mkVec3 1 0 10) (mkVec3 0 0 10) 1 2
           PositionConstraintType.XYZ [[0; 0; 0; 0; 0; 0]]);
    reflexivity.
Defined.

(** C3, as stated, fails for an instance built with the
    standard-deviation parameter: with mask Y, horizontal deviation 1,
    prior (0,2,0), predicted position (0,0,0) and parameter value 2, the
    Y residual is 1, while [scale_xy_ * (prior_y - predicted_y)] is 2. *)
Lemma AbsolutePositionError_mask_Y_counterexample :
  v1 (snd (operator_call
             (ctor (fun _ => mkVec3 0 0 0) (mkVec3 0 2 0) 1 1 true
                PositionConstraintType.Y)
             [[0; 0; 0; 0; 0; 0]; [2]])) = 1 /\
  v1 (snd (operator_call
             (ctor (fun _ => mkVec3 0 0 0) (mkVec3 0 2 0) 1 1 true
                PositionConstraintType.Y)
             [[0; 0; 0; 0; 0; 0]; [2]])) <>
  scale_xy_ (ctor (fun _ => mkVec3 0 0 0) (mkVec3 0 2 0) 1 1 true
               PositionConstraintType.Y) * (2 - 0).
Proof.
  unfold operator_call. rewrite filter_axises_coeffs. cbn. lra.
Qed.

(** C3 (amended): the call succeeds with a residual of three
    coefficients; a coefficient whose axis flag is absent from the mask
    is 0, and one whose flag is present is the scaled coefficient.  With
    the mask equal to Y, the X and Z coefficients are 0, and the Y
    coefficient is [scale_xy_ * (prior_y - predicted_y)] for an instance
    built without the standard-deviation parameter, and
    [(prior_y - predicted_y) / p[1][0]] for one built with it. *)
Theorem AbsolutePositionError_masking (self : t) (p : Blocks) :
  fst (operator_call self p) = true /\
  length (data (snd (operator_call self p))) = 3%nat /\
  (forall i : nat, (i < 3)%nat ->
     HasFlag self (nth i axises 0%Z) = false ->
     coeff (snd (operator_call self p)) i = 0) /\
  (forall i : nat, (i < 3)%nat ->
     HasFlag self (nth i axises 0%Z) = true ->
     coeff (snd (operator_call self p)) i = coeff (scaled self p) i) /\
  (type_ self = PositionConstraintType.Y ->
     v0 (snd (operator_call self p)) = 0 /\
     v2 (snd (operator_call self p)) = 0 /\
     (has_std_deviation_param_ self = false ->
        v1 (snd (operator_call self p)) =
        scale_xy_ self * (v1 (pos_prior_ self) - v1 (pos_func_ self p))) /\
     (has_std_deviation_param_ self = true ->
        v1 (snd (operator_call self p)) =
        (v1 (pos_prior_ self) - v1 (pos_func_ self p)) /
        at_ (block p 1) 0)).
Proof.
  split; [reflexivity |]. split; [reflexivity |].
  cbn [operator_call snd].
  split; [| split].
  - intros i Hi Hf. rewrite filter_axises_coeff, Hf by exact Hi.
    reflexivity.
  - intros i Hi Hf. rewrite filter_axises_coeff, Hf by exact Hi.
    reflexivity.
  - intros HY. destruct (HasFlag_only_Y self HY) as (HX & HY' & HZ).
    rewrite filter_axises_coeffs, HX, HY', HZ. cbn [v0 v1 v2].
    repeat split; unfold scaled; intros ->; cbn; ring.
Qed.

(** The amended C3 at the mask Y, with deviations 1 and 2, prior
    (0,0,10) and predicted position (1,0,10). *)
Lemma AbsolutePositionError_masking_witness :
  coeff (snd (operator_call
                (ctor (fun _ => mkVec3 1 0 10) (mkVec3 0 0 10) 1 2 false
                   PositionConstraintType.Y)
                [[0; 0; 0; 0; 0; 0]])) 0 = 0 /\
  v1 (snd (operator_call
             (ctor (fun _ => mkVec3 1 0 10) (mkVec3 0 0 10) 1 2 false
                PositionConstraintType.Y)
             [[0; 0; 0; 0; 0; 0]])) = 1 / 1 * (0 - 0).
Proof.
  destruct (AbsolutePositionError_masking
              (ctor (fun _ => mkVec3 1 0 10) (mkVec3 0 0 10) 1 2 false
                 PositionConstraintType.Y)
              [[0; 0; 0; 0; 0; 0]]) as (_ & _ & Hoff & _ & HY).
  split.
  - apply Hoff; [apply Nat.lt_0_succ | reflexivity].
  - apply HY; reflexivity.
Defined.

(** C4: with the standard-deviation parameter, the residual before
    masking is prior minus predicted position with each of the three
    coefficients divided by [p[1][0]]; the horizontal and vertical
    deviations given to the constructor have no effect on it. *)
Theorem AbsolutePositionError_std_deviation_param
    (pos_func : PosFunc) (pos_prior : Vec3)
    (std_deviation_horizontal std_deviation_vertical : R)
    (type : int) (p : Blocks) :
  scaled (ctor pos_func pos_prior std_deviation_horizontal
            std_deviation_vertical true type) p =
  mkVec3 ((v0 pos_prior - v0 (pos_func p)) / at_ (block p 1) 0)
         ((v1 pos_prior - v1 (pos_func p)) / at_ (block p 1) 0)
         ((v2 pos_prior - v2 (pos_func p)) / at_ (block p 1) 0) /\
  operator_call
    (ctor pos_func pos_prior std_deviation_horizontal
       std_deviation_vertical true type) p =
  (true,
   filter_axises
     (ctor pos_func pos_prior std_deviation_horizontal
        std_deviation_vertical true type)
     (scaled (ctor pos_func pos_prior std_deviation_horizontal
                std_deviation_vertical true type) p)) /\
  (forall sh sv : R,
     operator_call (ctor pos_func pos_prior sh sv true type) p =
     operator_call
       (ctor pos_func pos_prior std_deviation_horizontal
          std_deviation_vertical true type) p).
Proof.
  split; [reflexivity |]. split; [reflexivity |].
  intros sh sv. unfold operator_call.
  rewrite !filter_axises_coeffs. reflexivity.
Qed.

End AbsolutePositionErrorProperties.

(** ** UnitTranslationPriorError *)

Lemma at_offset (b : Block) (k i : nat) : at_ (offset b k) i = at_ b (k + i).
Proof.
  unfold at_, offset. revert b.
  induction k as [| k IH]; intros b; [reflexivity |].
  destruct b as [| x b]; cbn [skipn Nat.add nth].
  - now destruct i.
  - apply IH.
Qed.

Lemma UnitTranslationPriorError_formula (shot : Block) :
  UnitTranslationPriorError.operator_call shot =
  (true,
   ln (at_ shot 3 * at_ shot 3 + at_ shot 4 * at_ shot 4 +
       at_ shot 5 * at_ shot 5)).
Proof.
  unfold UnitTranslationPriorError.operator_call, log.
  rewrite !at_offset. reflexivity.
Qed.

(** C7: the residual is the logarithm of the squared norm of the
    translation entries of the block, with no scale factor; it is 0 for
    the translation (1,0,0) and [ln 4] for (2,0,0). *)
Theorem UnitTranslationPriorError_residual (shot : Block) :
  UnitTranslationPriorError.operator_call shot =
  (true,
   ln (at_ shot 3 * at_ shot 3 + at_ shot 4 * at_ shot 4 +
       at_ shot 5 * at_ shot 5)) /\
  (forall r0 r1 r2 : R,
     UnitTranslationPriorError.operator_call [r0; r1; r2; 1; 0; 0] =
     (true, 0)) /\
  (forall r0 r1 r2 : R,
     UnitTranslationPriorError.operator_call [r0; r1; r2; 2; 0; 0] =
     (true, ln 4)).
Proof.
  split; [apply UnitTranslationPriorError_formula |].
  split; intros r0 r1 r2; rewrite UnitTranslationPriorError_formula;
    unfold at_; cbn [nth]; f_equal.
  - replace (1 * 1 + 0 * 0 + 0 * 0) with 1 by ring. apply ln_1.
  - f_equal. ring.
Qed.

(** C10: two blocks with the same entries at indices 3, 4 and 5 give the
    same residual, whatever their other entries are. *)
Theorem UnitTranslationPriorError_noninterference (shot1 shot2 : Block) :
  at_ shot1 3 = at_ shot2 3 ->
  at_ shot1 4 = at_ shot2 4 ->
  at_ shot1 5 = at_ shot2 5 ->
  UnitTranslationPriorError.operator_call shot1 =
  UnitTranslationPriorError.operator_call shot2.
Proof.
  intros H3 H4 H5. rewrite !UnitTranslationPriorError_formula.
  now rewrite H3, H4, H5.
Qed.

(** C10 at two blocks that differ in each rotation entry. *)
Lemma UnitTranslationPriorError_noninterference_witness :
  UnitTranslationPriorError.operator_call [0; 0; 0; 1; 2; 3] =
  UnitTranslationPriorError.operator_call [7; 8; 9; 1; 2; 3].
Proof.
  apply (UnitTranslationPriorError_noninterference
           [0; 0; 0; 1; 2; 3] [7; 8; 9; 1; 2; 3]); reflexivity.
Defined.

(** ** Branch conditions *)

Lemma Rltb_true (x y : R) : Rltb x y = true <-> x < y.
Proof.
  unfold Rltb. destruct (Rlt_dec x y); split; intros; try easy.
Qed.

Lemma Rltb_false (x y : R) : Rltb x y = false <-> ~ x < y.
Proof.
  unfold Rltb. destruct (Rlt_dec x y); split; intros; try easy.
Qed.

Lemma Rleb_true (x y : R) : Rleb x y = true <-> x <= y.
Proof.
  unfold Rleb. destruct (Rle_dec x y); split; intros; try easy.
Qed.

Lemma Rleb_false (x y : R) : Rleb x y = false <-> ~ x <= y.
Proof.
  unfold Rleb. destruct (Rle_dec x y); split; intros; try easy.
Qed.

(** ** PanAngleError *)

Section PanAngleErrorProperties.
Context `{Collaborators}.
Import PanAngleError.

(** C5: the vertical axis (0,0,1) is rotated by the shot rotation; when
    the x and y coefficients of the rotated vector are both below 1e-8
    in magnitude the residual is 0, and otherwise it is the scale times
    [diff_between_angles (atan2 x y) angle], with x the first argument
    of [atan2] and y the second. *)
Theorem PanAngleError_residual (angle std_deviation : R) (shot : Block) :
  let z_world :=
    RotatePoint (ShotRotationFunctor 0%Z FUNCTOR_NOT_SET [shot])
                (mkVec3 0 0 1) in
  let x := v0 z_world in
  let y := v1 z_world in
  (Rabs x < 1e-8 /\ Rabs y < 1e-8 ->
     operator_call (ctor angle std_deviation) shot = (true, 0)) /\
  (~ (Rabs x < 1e-8 /\ Rabs y < 1e-8) ->
     operator_call (ctor angle std_deviation) shot =
     (true, 1 / std_deviation * diff_between_angles (atan2 x y) angle)).
Proof.
  intros z_world x y. unfold operator_call. fold z_world. fold x. fold y.
  split.
  - intros [Hx Hy].
    apply Rltb_true in Hx. apply Rltb_true in Hy.
    now rewrite Hx, Hy.
  - intros Hn.
    destruct (Rltb (Rabs x) 1e-8) eqn:Ex; [| reflexivity].
    destruct (Rltb (Rabs y) 1e-8) eqn:Ey; [| reflexivity].
    apply Rltb_true in Ex. apply Rltb_true in Ey. tauto.
Qed.

End PanAngleErrorProperties.

(** C5 on the concrete collaborators: the zero rotation leaves the
    vertical axis in place, which is the degenerate case, and the rotation
    vector (1,0,0) moves it to (0,-1,1), which is not. *)
Lemma PanAngleError_residual_witness :
  @PanAngleError.operator_call plain_shot (PanAngleError.ctor 0 1)
    [0; 0; 0; 0; 0; 0] = (true, 0) /\
  @PanAngleError.operator_call plain_shot (PanAngleError.ctor 0 1)
    [1; 0; 0; 0; 0; 0] =
  (true,
   1 / 1 *
   diff_between_angles (atan2_by_cases (0 + (0 * 1 - 0 * 0))
                                       (0 + (0 * 0 - 1 * 1))) 0).
Proof.
  split.
  - apply (proj1 (@PanAngleError_residual plain_shot 0 1
                    [0; 0; 0; 0; 0; 0])).
    cbn. split; apply Rabs_def1; lra.
  - apply (proj2 (@PanAngleError_residual plain_shot 0 1
                    [1; 0; 0; 0; 0; 0])).
    cbn. intros [_ Hy]. apply Rabs_def2 in Hy. lra.
Defined.

(** ** RollAngleError *)

Section RollAngleErrorProperties.
Context `{Collaborators}.
Import RollAngleError.

(** C6: with [right] and [forward] the rotated axes (1,0,0) and (0,0,1),
    the auxiliary axis is (forward_y, -forward_x, 0).  When its length is
    below 1e-5 the residual is 0, whatever the target angle.  Otherwise,
    with [a] the normalized auxiliary axis, [b = right x a] and
    [sin_roll = forward . b]: the residual is 0 when
    [sin_roll <= -(1 - 1e-5)], and the scale times
    [diff_between_angles (asin sin_roll) angle] when it is not. *)
Theorem RollAngleError_residual (angle std_deviation : R) (shot : Block) :
  let R := ShotRotationFunctor 0%Z FUNCTOR_NOT_SET [shot] in
  let right := AngleAxisRotatePoint R (mkVec3 1 0 0) in
  let forward := AngleAxisRotatePoint R (mkVec3 0 0 1) in
  let aux := mkVec3 (v1 forward) (- v0 forward) 0 in
  let a := vdiv aux (norm aux) in
  let b := CrossProduct right a in
  let sin_roll := dot forward b in
  (norm aux < 1e-5 ->
     operator_call (ctor angle std_deviation) shot = (true, 0)) /\
  (~ norm aux < 1e-5 -> sin_roll <= - (1 - 1e-5) ->
     operator_call (ctor angle std_deviation) shot = (true, 0)) /\
  (~ norm aux < 1e-5 -> ~ sin_roll <= - (1 - 1e-5) ->
     operator_call (ctor angle std_deviation) shot =
     (true,
      1 / std_deviation * diff_between_angles (asin sin_roll) angle)).
Proof.
  intros R right forward aux a b sin_roll.
  assert (Hla : sqrt (v0 aux * v0 aux + v1 aux * v1 aux) = norm aux).
  { unfold norm, squaredNorm. f_equal. cbn [aux v0 v1 v2]. ring. }
  assert (Ha : mkVec3 (v0 aux / norm aux) (v1 aux / norm aux) (v2 aux) = a).
  { unfold a, vdiv. f_equal. cbn [aux v2]. unfold Rdiv. ring. }
  unfold operator_call.
  fold R. fold right. fold forward. fold aux.
  rewrite Hla, Ha. fold b. fold (dot forward b). fold sin_roll.
  replace (1.0) with 1 by lra.
  split; [| split].
  - intros Hlt. apply Rltb_true in Hlt. now rewrite Hlt.
  - intros Hlt Hle. apply Rltb_false in Hlt. apply Rleb_true in Hle.
    now rewrite Hlt, Hle.
  - intros Hlt Hle. apply Rltb_false in Hlt. apply Rleb_false in Hle.
    now rewrite Hlt, Hle.
Qed.

End RollAngleErrorProperties.

Ltac unit_length :=
  unfold norm, squaredNorm, dot; cbn;
  match goal with
  | |- context [sqrt ?e] => replace e with 1 by lra
  end;
  rewrite sqrt_1.

(** C6 on the concrete collaborators: the zero rotation gives an
    auxiliary axis of length 0; the rotation vector (1,0,-1) gives
    [sin_roll = -1]; the rotation vector (1,0,0) gives [sin_roll = 0]. *)
Lemma RollAngleError_residual_witness :
  @RollAngleError.operator_call plain_shot (RollAngleError.ctor 3 1)
    [0; 0; 0; 0; 0; 0] = (true, 0) /\
  @RollAngleError.operator_call plain_shot (RollAngleError.ctor 3 1)
    [1; 0; -1; 0; 0; 0] = (true, 0) /\
  @RollAngleError.operator_call plain_shot (RollAngleError.ctor 0 1)
    [1; 0; 0; 0; 0; 0] = (true, 1 / 1 * diff_between_angles (asin 0) 0).
Proof.
  split; [| split].
  - apply (proj1 (@RollAngleError_residual plain_shot 3 1
                    [0; 0; 0; 0; 0; 0])).
    unfold norm, squaredNorm. cbn.
    match goal with
    | |- context [sqrt ?e] => replace e with 0 by lra
    end.
    rewrite sqrt_0. lra.
  - apply (proj1 (proj2 (@RollAngleError_residual plain_shot 3 1
                           [1; 0; -1; 0; 0; 0]))).
    + unit_length. lra.
    + unit_length. lra.
  - rewrite (proj2 (proj2 (@RollAngleError_residual plain_shot 0 1
                             [1; 0; 0; 0; 0; 0]))).
    + do 4 f_equal. unit_length. lra.
    + unit_length. lra.
    + unit_length. lra.
Defined.

(** ** HeatmapdCostFunctor *)

Section HeatmapdCostFunctorProperties.
Context `{Collaborators}.
Import HeatmapdCostFunctor.

(** C8: the interpolator is sampled at
    [row = height / 2 - (pos_y - y_offset) / resolution] and
    [col = width / 2 + (pos_x - x_offset) / resolution], with
    (pos_x, pos_y) the position of the shot, and the residual is the
    scale times the sampled value; at a position equal to the offsets
    the sample point is [(height / 2, width / 2)]. *)
Theorem HeatmapdCostFunctor_residual
    (interpolator : R -> R -> R)
    (x_offset y_offset height width resolution std_deviation : R)
    (p : Block) :
  let self := ctor interpolator x_offset y_offset height width resolution
                std_deviation in
  let position := ShotPositionFunctor 0%Z FUNCTOR_NOT_SET [p] in
  let row := height / 2 - (v1 position - y_offset) / resolution in
  let col := width / 2 + (v0 position - x_offset) / resolution in
  row_col self p = (row, col) /\
  operator_call self p =
  (true, 1 / std_deviation * interpolator row col) /\
  (v0 position = x_offset -> v1 position = y_offset ->
     row_col self p = (height / 2, width / 2) /\
     operator_call self p =
     (true,
      1 / std_deviation * interpolator (height / 2) (width / 2))).
Proof.
  intros self position row col.
  assert (Hrc : row_col self p = (row, col)) by reflexivity.
  assert (Hop : operator_call self p =
                (true, 1 / std_deviation * interpolator row col)).
  { unfold operator_call. rewrite Hrc. cbn. f_equal. ring. }
  split; [exact Hrc |]. split; [exact Hop |].
  intros Hx Hy.
  assert (Hr : row = height / 2).
  { unfold row. rewrite Hy. unfold Rdiv. ring. }
  assert (Hc : col = width / 2).
  { unfold col. rewrite Hx. unfold Rdiv. ring. }
  rewrite Hop, Hrc, Hr, Hc. split; reflexivity.
Qed.

End HeatmapdCostFunctorProperties.

(** C8 on the concrete collaborators: a shot at position (3,4) over a
    raster of 10 by 20 cells with offsets (3,4), and the interpolator that
    adds its coordinates. *)
Lemma HeatmapdCostFunctor_residual_witness :
  @HeatmapdCostFunctor.row_col plain_shot
    (HeatmapdCostFunctor.ctor Rplus 3 4 10 20 2 1)
    [0; 0; 0; -3; -4; 0] = (10 / 2, 20 / 2) /\
  @HeatmapdCostFunctor.operator_call plain_shot
    (HeatmapdCostFunctor.ctor Rplus 3 4 10 20 2 1)
    [0; 0; 0; -3; -4; 0] = (true, 1 / 1 * (10 / 2 + 20 / 2)).
Proof.
  apply (proj2 (proj2 (@HeatmapdCostFunctor_residual plain_shot
                         Rplus 3 4 10 20 2 1 [0; 0; 0; -3; -4; 0])));
    cbn; lra.
Defined.

(** ** UpVectorError *)

Lemma squaredNorm_nonneg (v : Vec3) : 0 <= squaredNorm v.
Proof.
  unfold squaredNorm.
  pose proof (Rle_0_sqr (v0 v)) as H0.
  pose proof (Rle_0_sqr (v1 v)) as H1.
  pose proof (Rle_0_sqr (v2 v)) as H2.
  unfold Rsqr in *. lra.
Qed.

Lemma squaredNorm_vscale (s : R) (v : Vec3) :
  squaredNorm (vscale s v) = s * s * squaredNorm v.
Proof. unfold squaredNorm, vscale. cbn. ring. Qed.

Lemma squaredNorm_zero (v : Vec3) :
  squaredNorm v = 0 -> v = mkVec3 0 0 0.
Proof.
  destruct v as [x y z]. unfold squaredNorm. cbn. intros Hz.
  pose proof (Rle_0_sqr x) as Hx.
  pose proof (Rle_0_sqr y) as Hy.
  pose proof (Rle_0_sqr z) as Hzz.
  unfold Rsqr in *.
  assert (Ex : x * x = 0) by lra.
  assert (Ey : y * y = 0) by lra.
  assert (Ez : z * z = 0) by lra.
  apply Rsqr_0_uniq in Ex. apply Rsqr_0_uniq in Ey.
  apply Rsqr_0_uniq in Ez. now subst.
Qed.

(** Eigen's [normalized] keeps only the direction: a positive multiple of
    a vector has the same normalization. *)
Lemma normalized_vscale (s : R) (v : Vec3) :
  0 < s -> normalized (vscale s v) = normalized v.
Proof.
  intros Hs. unfold normalized. rewrite squaredNorm_vscale.
  pose proof (squaredNorm_nonneg v) as Hz.
  destruct (Rgt_dec (squaredNorm v) 0) as [Hpos | Hnpos].
  - destruct (Rgt_dec (s * s * squaredNorm v) 0) as [_ | Hn].
    2: { exfalso. apply Hn. apply Rmult_gt_0_compat; [nra | exact Hpos]. }
    rewrite sqrt_mult_alt by nra.
    rewrite sqrt_square by lra.
    assert (Hq : sqrt (squaredNorm v) <> 0).
    { intros E. apply sqrt_eq_0 in E; lra. }
    unfold vdiv, vscale. cbn. f_equal; field; split; lra.
  - assert (E : squaredNorm v = 0) by lra.
    rewrite (squaredNorm_zero v E).
    destruct (Rgt_dec (s * s * squaredNorm (mkVec3 0 0 0)) 0);
      unfold vdiv, vscale; cbn; f_equal; unfold Rdiv; ring.
Qed.

Section UpVectorErrorProperties.
Context `{Collaborators}.
Import UpVectorError.

(** C9: for a nonzero acceleration [v] and a positive [lambda], the
    functor built from [lambda * v] gives, at every parameter input, the
    residual of the functor built from [v] with the same standard
    deviation and rig flag. *)
Theorem UpVectorError_direction_only
    (v : Vec3) (lambda std_deviation : R) (is_rig_shot : bool)
    (p : Blocks) :
  v <> mkVec3 0 0 0 -> 0 < lambda ->
  operator_call (ctor (vscale lambda v) std_deviation is_rig_shot) p =
  operator_call (ctor v std_deviation is_rig_shot) p.
Proof.
  intros _ Hl. unfold operator_call, ctor. cbn.
  now rewrite (normalized_vscale lambda v Hl).
Qed.

End UpVectorErrorProperties.

(** C9 on the concrete collaborators, at [v = (1,2,2)] and
    [lambda = 3]. *)
Lemma UpVectorError_direction_only_witness :
  @UpVectorError.operator_call plain_shot
    (UpVectorError.ctor (vscale 3 (mkVec3 1 2 2)) 1 false)
    [[0; 0; 1; 0; 0; 0]] =
  @UpVectorError.operator_call plain_shot
    (UpVectorError.ctor (mkVec3 1 2 2) 1 false)
    [[0; 0; 1; 0; 0; 0]].
Proof.
  apply (@UpVectorError_direction_only plain_shot
           (mkVec3 1 2 2) 3 1 false [[0; 0; 1; 0; 0; 0]]).
  - intros E. injection E as E0 E1 E2. lra.
  - lra.
Defined.

(** * Further properties *)

(** ** diff_between_angles: symmetry, size and period *)

(** Swapping the two angles negates the result, for all inputs: the two
    strict comparisons mirror each other. *)
Theorem diff_between_angles_antisym (a b : R) :
  diff_between_angles b a = - diff_between_angles a b.
Proof.
  pose proof PI_RGT_0 as Hpi.
  destruct (diff_between_angles_branches a b)
    as [[G E] | [[L E] | [[Hl Hu] E]]]; rewrite E.
  - rewrite diff_between_angles_lt; unfold M_PI in *; lra.
  - rewrite diff_between_angles_gt; unfold M_PI in *; lra.
  - rewrite diff_between_angles_mid; unfold M_PI in *; lra.
Qed.

(** The remap never makes the difference larger in magnitude. *)
Theorem diff_between_angles_shrinks (a b : R) :
  Rabs (diff_between_angles a b) <= Rabs (a - b).
Proof.
  pose proof PI_RGT_0 as Hpi.
  destruct (diff_between_angles_branches a b)
    as [[G E] | [[L E] | [[Hl Hu] E]]]; rewrite E;
    unfold M_PI in *; unfold Rabs;
    repeat match goal with
           | |- context [Rcase_abs ?x] => destruct (Rcase_abs x)
           end; lra.
Qed.

(** The result is the same angle as [a - b]: sine and cosine agree, for
    all inputs, also those that one remap does not bring into range. *)
Theorem diff_between_angles_same_angle (a b : R) :
  sin (diff_between_angles a b) = sin (a - b) /\
  cos (diff_between_angles a b) = cos (a - b).
Proof.
  destruct (diff_between_angles_branches a b)
    as [[_ E] | [[_ E] | [_ E]]]; rewrite E; unfold M_PI;
    generalize (a - b); intros d.
  - rewrite sin_minus, cos_minus, sin_2PI, cos_2PI. split; ring.
  - rewrite sin_plus, cos_plus, sin_2PI, cos_2PI. split; ring.
  - split; reflexivity.
Qed.

(** A full turn added to or taken from the first angle is absorbed, as
    long as the difference itself needs no remap. *)
Theorem diff_between_angles_full_turn (a b : R) :
  (- M_PI < a - b <= M_PI ->
     diff_between_angles (a + 2 * M_PI) b = diff_between_angles a b) /\
  (- M_PI <= a - b < M_PI ->
     diff_between_angles (a - 2 * M_PI) b = diff_between_angles a b).
Proof.
  pose proof PI_RGT_0 as Hpi.
  split; intros [Hl Hu].
  - rewrite diff_between_angles_gt by (unfold M_PI in *; lra).
    rewrite diff_between_angles_mid by (unfold M_PI in *; lra). lra.
  - rewrite diff_between_angles_lt by (unfold M_PI in *; lra).
    rewrite diff_between_angles_mid by (unfold M_PI in *; lra). lra.
Qed.

(** [diff_between_angles_full_turn] at 359 degrees against 1 degree, in
    radians: [a - b] is [- pi / 90] after a full turn is added to [a]. *)
Lemma diff_between_angles_full_turn_witness :
  diff_between_angles (PI / 180 + 2 * M_PI) (PI / 60) =
  diff_between_angles (PI / 180) (PI / 60).
Proof.
  pose proof PI_RGT_0 as Hpi.
  apply (proj1 (diff_between_angles_full_turn (PI / 180) (PI / 60))).
  unfold M_PI. lra.
Defined.

(** ** AbsolutePositionError: masks built from axis bits *)

Section AbsolutePositionErrorMasks.
Import AbsolutePositionError.

(** A mask that is the bitwise or of a choice of the axis bits keeps
    exactly the chosen coefficients of the scaled residual and zeroes the
    others; the empty choice gives the zero residual. *)
Theorem AbsolutePositionError_mask_union
    (self : t) (p : Blocks) (bx by_ bz : bool) :
  type_ self =
    Z.lor (if bx then PositionConstraintType.X else 0%Z)
      (Z.lor (if by_ then PositionConstraintType.Y else 0%Z)
             (if bz then PositionConstraintType.Z else 0%Z)) ->
  snd (operator_call self p) =
  mkVec3 (if bx then v0 (scaled self p) else 0)
         (if by_ then v1 (scaled self p) else 0)
         (if bz then v2 (scaled self p) else 0).
Proof.
  intros Ht. cbn [operator_call snd]. rewrite filter_axises_coeffs.
  unfold HasFlag. rewrite Ht.
  destruct bx, by_, bz; reflexivity.
Qed.

(** [AbsolutePositionError_mask_union] at the mask XY. *)
Lemma AbsolutePositionError_mask_union_witness :
  snd (operator_call
         (ctor (fun _ => mkVec3 1 0 10) (mkVec3 0 0 12) 1 2 false
            PositionConstraintType.XY)
         [[0; 0; 0; 0; 0; 0]]) =
  mkVec3 ((0 - 1) * (1 / 1)) ((0 - 0) * (1 / 1)) 0.
Proof.
  apply (AbsolutePositionError_mask_union
           (ctor (fun _ => mkVec3 1 0 10) (mkVec3 0 0 12) 1 2 false
              PositionConstraintType.XY)
           [[0; 0; 0; 0; 0; 0]] true true false).
  reflexivity.
Defined.

(** At a predicted position equal to the prior the residual is the zero
    vector, for every mask and in both modes, as long as the divisor in
    use is not zero. *)
Theorem AbsolutePositionError_zero_at_prior
    (pos_func : PosFunc) (pos_prior : Vec3)
    (std_deviation_horizontal std_deviation_vertical : R)
    (has_std_deviation_param : bool) (type : int) (p : Blocks) :
  pos_func p = pos_prior ->
  (if has_std_deviation_param then at_ (block p 1) 0 <> 0
   else std_deviation_horizontal <> 0 /\ std_deviation_vertical <> 0) ->
  operator_call
    (ctor pos_func pos_prior std_deviation_horizontal
       std_deviation_vertical has_std_deviation_param type) p =
  (true, mkVec3 0 0 0).
Proof.
  intros Hp _. unfold operator_call. rewrite filter_axises_coeffs.
  unfold scaled, ctor. cbn. rewrite Hp.
  destruct has_std_deviation_param; cbn;
    repeat match goal with
           | |- context [if ?c then _ else _] => destruct c
           end;
    do 2 f_equal; unfold Rdiv; ring.
Qed.

(** [AbsolutePositionError_zero_at_prior] in the mode with the
    standard-deviation parameter, at the value 2. *)
Lemma AbsolutePositionError_zero_at_prior_witness :
  operator_call
    (ctor (fun _ => mkVec3 1 2 3) (mkVec3 1 2 3) 1 1 true
       PositionConstraintType.XYZ)
    [[0; 0; 0; 0; 0; 0]; [2]] = (true, mkVec3 0 0 0).
Proof.
  apply (AbsolutePositionError_zero_at_prior
           (fun _ => mkVec3 1 2 3) (mkVec3 1 2 3) 1 1 true
           PositionConstraintType.XYZ [[0; 0; 0; 0; 0; 0]; [2]]).
  - reflexivity.
  - cbn. lra.
Defined.

End AbsolutePositionErrorMasks.

(** ** PointPositionPriorError *)

Lemma Rinv_1_neq_0 (s : R) : s <> 0 -> 1 / s <> 0.
Proof.
  intros Hs E. apply (Rinv_neq_0_compat s Hs).
  unfold Rdiv in E. rewrite Rmult_1_l in E. exact E.
Qed.

(** With a standard deviation that is not zero, the residual is the zero
    vector exactly when the point and the prior agree on their three
    entries. *)
Theorem PointPositionPriorError_zero_iff
    (position p : Block) (std_deviation : R) :
  std_deviation <> 0 ->
  (snd (PointPositionPriorError.operator_call
          (PointPositionPriorError.ctor position std_deviation) p) =
   mkVec3 0 0 0 <->
   at_ p 0 = at_ position 0 /\
   at_ p 1 = at_ position 1 /\
   at_ p 2 = at_ position 2).
Proof.
  intros Hs. pose proof (Rinv_1_neq_0 _ Hs) as Hk.
  unfold PointPositionPriorError.operator_call, PointPositionPriorError.ctor.
  cbn [snd PointPositionPriorError.scale_ PointPositionPriorError.position_].
  split.
  - intros E. injection E as E0 E1 E2.
    apply Rmult_integral in E0, E1, E2.
    destruct E0 as [E0 | E0]; [contradiction |].
    destruct E1 as [E1 | E1]; [contradiction |].
    destruct E2 as [E2 | E2]; [contradiction |].
    repeat split; lra.
  - intros (E0 & E1 & E2). rewrite E0, E1, E2. f_equal; ring.
Qed.

(** [PointPositionPriorError_zero_iff] at point and prior (1,2,3). *)
Lemma PointPositionPriorError_zero_iff_witness :
  snd (PointPositionPriorError.operator_call
         (PointPositionPriorError.ctor [1; 2; 3] 5) [1; 2; 3]) =
  mkVec3 0 0 0.
Proof.
  apply (proj2 (PointPositionPriorError_zero_iff [1; 2; 3] [1; 2; 3] 5
                  ltac:(lra))).
  repeat split.
Defined.

(** ** UnitTranslationPriorError: sign and scaling *)

(** For a translation that is not zero, the residual is 0 exactly at unit
    norm, negative exactly inside the unit sphere and positive exactly
    outside it. *)
Theorem UnitTranslationPriorError_sign (shot : Block) :
  0 < at_ shot 3 * at_ shot 3 + at_ shot 4 * at_ shot 4 +
      at_ shot 5 * at_ shot 5 ->
  (snd (UnitTranslationPriorError.operator_call shot) = 0 <->
   at_ shot 3 * at_ shot 3 + at_ shot 4 * at_ shot 4 +
   at_ shot 5 * at_ shot 5 = 1) /\
  (snd (UnitTranslationPriorError.operator_call shot) < 0 <->
   at_ shot 3 * at_ shot 3 + at_ shot 4 * at_ shot 4 +
   at_ shot 5 * at_ shot 5 < 1) /\
  (0 < snd (UnitTranslationPriorError.operator_call shot) <->
   1 < at_ shot 3 * at_ shot 3 + at_ shot 4 * at_ shot 4 +
       at_ shot 5 * at_ shot 5).
Proof.
  rewrite UnitTranslationPriorError_formula. cbn [snd].
  generalize (at_ shot 3 * at_ shot 3 + at_ shot 4 * at_ shot 4 +
              at_ shot 5 * at_ shot 5).
  intros n Hn. rewrite <- ln_1.
  repeat split; intros Hc.
  - apply ln_inv; [exact Hn | lra | exact Hc].
  - now rewrite Hc.
  - apply ln_lt_inv; [exact Hn | lra | exact Hc].
  - apply ln_increasing; [exact Hn | exact Hc].
  - apply ln_lt_inv; [lra | exact Hn | exact Hc].
  - apply ln_increasing; [lra | exact Hc].
Qed.

(** [UnitTranslationPriorError_sign] at the translation (0, 1/2, 0),
    inside the unit sphere. *)
Lemma UnitTranslationPriorError_sign_witness :
  snd (UnitTranslationPriorError.operator_call [0; 0; 0; 0; 1 / 2; 0]) < 0.
Proof.
  apply (proj1 (proj2 (UnitTranslationPriorError_sign
                         [0; 0; 0; 0; 1 / 2; 0]
                         ltac:(unfold at_; cbn; lra)))).
  unfold at_; cbn; lra.
Defined.

(** Scaling a translation that is not zero by a factor [k] that is not
    zero adds [ln (k * k)] to the residual. *)
Theorem UnitTranslationPriorError_scaling (shot shot' : Block) (k : R) :
  k <> 0 ->
  0 < at_ shot 3 * at_ shot 3 + at_ shot 4 * at_ shot 4 +
      at_ shot 5 * at_ shot 5 ->
  at_ shot' 3 = k * at_ shot 3 ->
  at_ shot' 4 = k * at_ shot 4 ->
  at_ shot' 5 = k * at_ shot 5 ->
  snd (UnitTranslationPriorError.operator_call shot') =
  snd (UnitTranslationPriorError.operator_call shot) + ln (k * k).
Proof.
  intros Hk Hn E3 E4 E5.
  rewrite !UnitTranslationPriorError_formula. cbn [snd].
  rewrite E3, E4, E5.
  replace (k * at_ shot 3 * (k * at_ shot 3) +
           k * at_ shot 4 * (k * at_ shot 4) +
           k * at_ shot 5 * (k * at_ shot 5))
    with ((at_ shot 3 * at_ shot 3 + at_ shot 4 * at_ shot 4 +
           at_ shot 5 * at_ shot 5) * (k * k)) by ring.
  apply ln_mult; [exact Hn |].
  pose proof (Rsqr_pos_lt k Hk) as Hkk. unfold Rsqr in Hkk. exact Hkk.
Qed.

(** [UnitTranslationPriorError_scaling] at the translation (1,2,2)
    scaled by 3. *)
Lemma UnitTranslationPriorError_scaling_witness :
  snd (UnitTranslationPriorError.operator_call [0; 0; 0; 3; 6; 6]) =
  snd (UnitTranslationPriorError.operator_call [9; 9; 9; 1; 2; 2]) +
  ln (3 * 3).
Proof.
  apply (UnitTranslationPriorError_scaling
           [9; 9; 9; 1; 2; 2] [0; 0; 0; 3; 6; 6] 3);
    unfold at_; cbn; lra.
Defined.

(** ** HeatmapdCostFunctor: the raster coordinates *)

Section HeatmapdCostFunctorCoordinates.
Context `{Collaborators}.
Import HeatmapdCostFunctor.

(** Two shots whose positions agree in x and y sample the same raster
    point and get the same residual: the height of the shot plays no
    part. *)
Theorem HeatmapdCostFunctor_ignores_height (self : t) (p q : Block) :
  v0 (ShotPositionFunctor 0%Z FUNCTOR_NOT_SET [p]) =
  v0 (ShotPositionFunctor 0%Z FUNCTOR_NOT_SET [q]) ->
  v1 (ShotPositionFunctor 0%Z FUNCTOR_NOT_SET [p]) =
  v1 (ShotPositionFunctor 0%Z FUNCTOR_NOT_SET [q]) ->
  row_col self p = row_col self q /\
  operator_call self p = operator_call self q.
Proof.
  intros Hx Hy.
  assert (E : row_col self p = row_col self q).
  { unfold row_col. now rewrite Hx, Hy. }
  split; [exact E |]. unfold operator_call. now rewrite E.
Qed.

(** With a resolution that is not zero, a shot displaced by [dx] in x and
    [dy] in y is sampled [dx / resolution] columns further and
    [dy / resolution] rows earlier: rows grow against the y axis. *)
Theorem HeatmapdCostFunctor_displacement
    (self : t) (p q : Block) (dx dy : R) :
  resolution_ self <> 0 ->
  v0 (ShotPositionFunctor 0%Z FUNCTOR_NOT_SET [q]) =
  v0 (ShotPositionFunctor 0%Z FUNCTOR_NOT_SET [p]) + dx ->
  v1 (ShotPositionFunctor 0%Z FUNCTOR_NOT_SET [q]) =
  v1 (ShotPositionFunctor 0%Z FUNCTOR_NOT_SET [p]) + dy ->
  fst (row_col self q) = fst (row_col self p) - dy / resolution_ self /\
  snd (row_col self q) = snd (row_col self p) + dx / resolution_ self.
Proof.
  intros _ Hx Hy. unfold row_col. cbn [fst snd]. rewrite Hx, Hy.
  unfold Rdiv. split; ring.
Qed.

(** With a resolution that is not zero the sample point determines the
    horizontal position: x and y are recovered from column and row. *)
Theorem HeatmapdCostFunctor_position_of_sample (self : t) (p : Block) :
  resolution_ self <> 0 ->
  v0 (ShotPositionFunctor 0%Z FUNCTOR_NOT_SET [p]) =
  x_offset_ self + (snd (row_col self p) - width_ self / 2) *
                   resolution_ self /\
  v1 (ShotPositionFunctor 0%Z FUNCTOR_NOT_SET [p]) =
  y_offset_ self + (height_ self / 2 - fst (row_col self p)) *
                   resolution_ self.
Proof.
  intros Hr. unfold row_col. cbn [fst snd]. split; field; exact Hr.
Qed.

End HeatmapdCostFunctorCoordinates.

(** [HeatmapdCostFunctor_ignores_height] on the concrete collaborators,
    at two shots over the same point at heights 0 and 7. *)
Lemma HeatmapdCostFunctor_ignores_height_witness :
  @HeatmapdCostFunctor.operator_call plain_shot
    (HeatmapdCostFunctor.ctor Rmult 3 4 10 20 2 1) [0; 0; 0; -5; -6; 0] =
  @HeatmapdCostFunctor.operator_call plain_shot
    (HeatmapdCostFunctor.ctor Rmult 3 4 10 20 2 1) [0; 0; 0; -5; -6; -7].
Proof.
  apply (@HeatmapdCostFunctor_ignores_height plain_shot
           (HeatmapdCostFunctor.ctor Rmult 3 4 10 20 2 1)
           [0; 0; 0; -5; -6; 0] [0; 0; 0; -5; -6; -7]); reflexivity.
Defined.

(** [HeatmapdCostFunctor_displacement] on the concrete collaborators: two
    units east and four units north at resolution 2. *)
Lemma HeatmapdCostFunctor_displacement_witness :
  fst (@HeatmapdCostFunctor.row_col plain_shot
         (HeatmapdCostFunctor.ctor Rmult 3 4 10 20 2 1)
         [0; 0; 0; -7; -10; 0]) =
  fst (@HeatmapdCostFunctor.row_col plain_shot
         (HeatmapdCostFunctor.ctor Rmult 3 4 10 20 2 1)
         [0; 0; 0; -5; -6; 0]) - 4 / 2 /\
  snd (@HeatmapdCostFunctor.row_col plain_shot
         (HeatmapdCostFunctor.ctor Rmult 3 4 10 20 2 1)
         [0; 0; 0; -7; -10; 0]) =
  snd (@HeatmapdCostFunctor.row_col plain_shot
         (HeatmapdCostFunctor.ctor Rmult 3 4 10 20 2 1)
         [0; 0; 0; -5; -6; 0]) + 2 / 2.
Proof.
  apply (@HeatmapdCostFunctor_displacement plain_shot
           (HeatmapdCostFunctor.ctor Rmult 3 4 10 20 2 1)
           [0; 0; 0; -5; -6; 0] [0; 0; 0; -7; -10; 0] 2 4);
    cbn; lra.
Defined.

(** [HeatmapdCostFunctor_position_of_sample] on the concrete
    collaborators, at resolution 2. *)
Lemma HeatmapdCostFunctor_position_of_sample_witness :
  - -5 =
  3 + (snd (@HeatmapdCostFunctor.row_col plain_shot
              (HeatmapdCostFunctor.ctor Rmult 3 4 10 20 2 1)
              [0; 0; 0; -5; -6; 0]) - 20 / 2) * 2.
Proof.
  apply (proj1 (@HeatmapdCostFunctor_position_of_sample plain_shot
                  (HeatmapdCostFunctor.ctor Rmult 3 4 10 20 2 1)
                  [0; 0; 0; -5; -6; 0] ltac:(cbn; lra))).
Defined.

(** ** UpVectorError: the stored direction and the size of the residual *)

Lemma squaredNorm_pos (v : Vec3) : v <> mkVec3 0 0 0 -> 0 < squaredNorm v.
Proof.
  intros Hv. pose proof (squaredNorm_nonneg v) as Hz.
  destruct (Req_dec (squaredNorm v) 0) as [E | N]; [| lra].
  exfalso. apply Hv. now apply squaredNorm_zero.
Qed.

Lemma normalized_unit (v : Vec3) :
  v <> mkVec3 0 0 0 -> squaredNorm (normalized v) = 1.
Proof.
  intros Hv. pose proof (squaredNorm_pos v Hv) as Hz.
  unfold normalized.
  destruct (Rgt_dec (squaredNorm v) 0) as [_ | N]; [| contradiction].
  pose proof (sqrt_sqrt (squaredNorm v) (Rlt_le _ _ Hz)) as Hs.
  assert (Hq : sqrt (squaredNorm v) <> 0).
  { intros E. rewrite E in Hs. lra. }
  unfold squaredNorm at 1. unfold vdiv. cbn [v0 v1 v2].
  replace (v0 v / sqrt (squaredNorm v) * (v0 v / sqrt (squaredNorm v)) +
           v1 v / sqrt (squaredNorm v) * (v1 v / sqrt (squaredNorm v)) +
           v2 v / sqrt (squaredNorm v) * (v2 v / sqrt (squaredNorm v)))
    with (squaredNorm v / (sqrt (squaredNorm v) * sqrt (squaredNorm v)))
    by (unfold squaredNorm at 1; field; exact Hq).
  rewrite Hs. field. lra.
Qed.

(** For every acceleration that is not zero the constructor stores a unit
    vector, and building a functor from the stored direction stores the
    same direction again. *)
Theorem UpVectorError_stored_direction
    (acceleration : Vec3) (std_deviation : R) (is_rig_shot : bool) :
  acceleration <> mkVec3 0 0 0 ->
  squaredNorm
    (UpVectorError.acceleration_
       (UpVectorError.ctor acceleration std_deviation is_rig_shot)) = 1 /\
  UpVectorError.acceleration_
    (UpVectorError.ctor
       (UpVectorError.acceleration_
          (UpVectorError.ctor acceleration std_deviation is_rig_shot))
       std_deviation is_rig_shot) =
  UpVectorError.acceleration_
    (UpVectorError.ctor acceleration std_deviation is_rig_shot).
Proof.
  intros Hv.
  cbn [UpVectorError.ctor UpVectorError.acceleration_].
  pose proof (normalized_unit _ Hv) as Hu.
  split; [exact Hu |].
  unfold normalized at 1. rewrite Hu.
  destruct (Rgt_dec 1 0) as [_ | N1]; [| lra].
  rewrite sqrt_1. unfold vdiv.
  destruct (normalized acceleration) as [x y z]. cbn. f_equal; field.
Qed.

(** [UpVectorError_stored_direction] at the acceleration (0, 3, 4). *)
Lemma UpVectorError_stored_direction_witness :
  squaredNorm
    (UpVectorError.acceleration_
       (UpVectorError.ctor (mkVec3 0 3 4) 1 false)) = 1.
Proof.
  apply (UpVectorError_stored_direction (mkVec3 0 3 4) 1 false).
  intros E. injection E as E1 E2. lra.
Defined.

Section UpVectorErrorSize.
Context `{Collaborators}.
Import UpVectorError.

(** When the rotation keeps the length of the stored direction, as a
    rotation does, the squared norm of the residual is
    [2 * scale^2 * (1 - z)], with [z] the vertical coefficient of the
    rotated direction, and it is at most [4 * scale^2]. *)
Theorem UpVectorError_residual_size
    (acceleration : Vec3) (std_deviation : R) (is_rig_shot : bool)
    (p : Blocks) :
  let R := ShotRotationFunctor 0%Z
             (if is_rig_shot then 1%Z else FUNCTOR_NOT_SET) p in
  let z_world := RotatePoint R (normalized acceleration) in
  acceleration <> mkVec3 0 0 0 ->
  squaredNorm z_world = squaredNorm (normalized acceleration) ->
  squaredNorm
    (snd (operator_call (ctor acceleration std_deviation is_rig_shot) p)) =
  2 * (1 / std_deviation * (1 / std_deviation)) * (1 - v2 z_world) /\
  squaredNorm
    (snd (operator_call (ctor acceleration std_deviation is_rig_shot) p)) <=
  4 * (1 / std_deviation * (1 / std_deviation)).
Proof.
  intros R z_world Hv Hkeep.
  rewrite (normalized_unit _ Hv) in Hkeep.
  assert (Hres :
    snd (operator_call (ctor acceleration std_deviation is_rig_shot) p) =
    vscale (1 / std_deviation) (vsub z_world (mkVec3 0 0 1)))
    by reflexivity.
  rewrite Hres. clear Hres. clearbody z_world. clear R.
  generalize (1 / std_deviation). intros s.
  destruct z_world as [x y z].
  unfold squaredNorm, vscale, vsub in *. cbn [v0 v1 v2] in *.
  assert (E : s * (x - 0) * (s * (x - 0)) + s * (y - 0) * (s * (y - 0)) +
              s * (z - 1) * (s * (z - 1)) = 2 * (s * s) * (1 - z)).
  { transitivity (s * s * ((x * x + y * y + z * z) - 2 * z + 1));
      [ring | rewrite Hkeep; ring]. }
  split; [exact E |].
  rewrite E.
  assert (Hz : -1 <= z) by nra.
  pose proof (Rle_0_sqr s) as Hs. unfold Rsqr in Hs. nra.
Qed.

(** With a standard deviation that is not zero, the residual is the zero
    vector exactly when the rotated direction is the vertical axis. *)
Theorem UpVectorError_zero_iff
    (acceleration : Vec3) (std_deviation : R) (is_rig_shot : bool)
    (p : Blocks) :
  std_deviation <> 0 ->
  (snd (operator_call (ctor acceleration std_deviation is_rig_shot) p) =
   mkVec3 0 0 0 <->
   RotatePoint
     (ShotRotationFunctor 0%Z
        (if is_rig_shot then 1%Z else FUNCTOR_NOT_SET) p)
     (normalized acceleration) = mkVec3 0 0 1).
Proof.
  intros Hs. pose proof (Rinv_1_neq_0 _ Hs) as Hk.
  unfold operator_call, ctor.
  cbn [snd acceleration_ is_rig_shot_ scale_].
  destruct (RotatePoint _ (normalized acceleration)) as [x y z].
  unfold vscale, vsub. cbn [v0 v1 v2].
  split; intros E; injection E as E0 E1 E2.
  - apply Rmult_integral in E0, E1, E2.
    destruct E0 as [E0 | E0]; [contradiction |].
    destruct E1 as [E1 | E1]; [contradiction |].
    destruct E2 as [E2 | E2]; [contradiction |].
    f_equal; lra.
  - subst. f_equal; ring.
Qed.

End UpVectorErrorSize.

(** [UpVectorError_residual_size] on the concrete collaborators, at the
    zero rotation, which keeps every vector. *)
Lemma UpVectorError_residual_size_witness :
  squaredNorm
    (snd (@UpVectorError.operator_call plain_shot
            (UpVectorError.ctor (mkVec3 0 3 4) 1 false)
            [[0; 0; 0; 0; 0; 0]])) <= 4 * (1 / 1 * (1 / 1)).
Proof.
  apply (@UpVectorError_residual_size plain_shot
           (mkVec3 0 3 4) 1 false [[0; 0; 0; 0; 0; 0]]).
  - intros E. injection E as E1 E2. lra.
  - cbn [plain_shot RotatePoint ShotRotationFunctor FUNCTOR_NOT_SET].
    unfold first_order_rotate, CrossProduct, squaredNorm, block, at_.
    cbn [v0 v1 v2 nth Z.to_nat]. ring.
Defined.

Lemma normalized_vertical (k : R) :
  0 < k -> normalized (mkVec3 0 0 k) = mkVec3 0 0 1.
Proof.
  intros Hk. unfold normalized, squaredNorm. cbn [v0 v1 v2].
  replace (0 * 0 + 0 * 0 + k * k) with (k * k) by ring.
  destruct (Rgt_dec (k * k) 0) as [_ | N]; [| exfalso; apply N; nra].
  rewrite sqrt_square by lra. unfold vdiv. cbn [v0 v1 v2].
  f_equal; field; lra.
Qed.

(** [UpVectorError_zero_iff] on the concrete collaborators: a vertical
    acceleration under the zero rotation. *)
Lemma UpVectorError_zero_iff_witness :
  snd (@UpVectorError.operator_call plain_shot
         (UpVectorError.ctor (mkVec3 0 0 3) 2 false)
         [[0; 0; 0; 0; 0; 0]]) = mkVec3 0 0 0.
Proof.
  apply (proj2 (@UpVectorError_zero_iff plain_shot
                  (mkVec3 0 0 3) 2 false
                  [[0; 0; 0; 0; 0; 0]] ltac:(lra))).
  rewrite normalized_vertical by lra.
  cbn [plain_shot RotatePoint ShotRotationFunctor FUNCTOR_NOT_SET].
  unfold first_order_rotate, CrossProduct, block, at_.
  cbn [v0 v1 v2 nth Z.to_nat]. f_equal; ring.
Defined.

(** ** The angle functors: when the difference is remapped *)

Lemma diff_between_angles_bounded (a b : R) :
  - (3 * M_PI) <= a - b <= 3 * M_PI ->
  Rabs (diff_between_angles a b) <= M_PI.
Proof.
  intros [Hl Hu]. pose proof PI_RGT_0 as Hpi.
  destruct (diff_between_angles_branches a b)
    as [[G E] | [[L E] | [[Hl' Hu'] E]]]; rewrite E;
    unfold M_PI in *; apply Rabs_le; lra.
Qed.

Lemma atan2_by_cases_right_half (y x : R) :
  0 <= x -> - (PI / 2) <= atan2_by_cases y x <= PI / 2.
Proof.
  intros Hx. pose proof PI_RGT_0 as Hpi. unfold atan2_by_cases.
  destruct (Rlt_dec 0 x) as [_ | _].
  - pose proof (atan_bound (y / x)). lra.
  - destruct (Rlt_dec x 0) as [N | _]; [lra |].
    destruct (Rlt_dec 0 y); [lra |].
    destruct (Rlt_dec y 0); lra.
Qed.

Lemma atan2_by_cases_range (y x : R) :
  - PI <= atan2_by_cases y x <= PI.
Proof.
  pose proof PI_RGT_0 as Hpi. unfold atan2_by_cases.
  pose proof (atan_bound (y / x)) as Hb.
  destruct (Rlt_dec 0 x) as [_ | _]; [lra |].
  destruct (Rlt_dec x 0) as [Hx | _].
  - assert (Hix : / x < 0) by now apply Rinv_lt_0_compat.
    destruct (Rle_dec 0 y) as [Hy | Hy].
    + assert (Hq : y / x <= 0) by (unfold Rdiv; nra).
      assert (Ha : atan (y / x) <= 0).
      { rewrite <- atan_0.
        destruct Hq as [Hq | Hq];
          [left; now apply atan_increasing | rewrite Hq; right; reflexivity]. }
      lra.
    + assert (Hq : 0 < y / x) by (unfold Rdiv; nra).
      assert (Ha : 0 < atan (y / x)).
      { rewrite <- atan_0. now apply atan_increasing. }
      lra.
  - destruct (Rlt_dec 0 y); [lra |].
    destruct (Rlt_dec y 0); lra.
Qed.

Section TiltAngleErrorProperties.
Context `{Collaborators}.
Import TiltAngleError.

(** When [atan2] maps the half plane of second argument at least 0 into
    [-pi/2, pi/2], as the arctangent of two arguments does, and the target
    angle lies in [-pi/2, pi/2], the tilt difference is never remapped:
    the residual is the scale times predicted minus target angle. *)
Theorem TiltAngleError_no_remap (angle std_deviation : R) (shot : Block) :
  let Rt_ez :=
    AngleAxisRotatePoint (ShotRotationFunctor 0%Z FUNCTOR_NOT_SET [shot])
                         (mkVec3 0 0 1) in
  let l := sqrt (v0 Rt_ez * v0 Rt_ez + v1 Rt_ez * v1 Rt_ez) in
  (forall y x : R, 0 <= x -> - (PI / 2) <= atan2 y x <= PI / 2) ->
  - (PI / 2) <= angle <= PI / 2 ->
  operator_call (ctor angle std_deviation) shot =
  (true, 1 / std_deviation * (- atan2 (v2 Rt_ez) l - angle)).
Proof.
  intros Rt_ez l Hatan Hangle.
  assert (Hop : operator_call (ctor angle std_deviation) shot =
                (true, 1 / std_deviation *
                       diff_between_angles (- atan2 (v2 Rt_ez) l) angle))
    by reflexivity.
  rewrite Hop.
  pose proof (Hatan (v2 Rt_ez) l (sqrt_pos _)) as Hp.
  rewrite diff_between_angles_mid; [reflexivity |].
  unfold M_PI. lra.
Qed.

End TiltAngleErrorProperties.

(** [TiltAngleError_no_remap] on the concrete collaborators, at the
    rotation vector (1,0,0) and the target angle 1. *)
Lemma TiltAngleError_no_remap_witness :
  @TiltAngleError.operator_call plain_shot (TiltAngleError.ctor 1 2)
    [1; 0; 0; 0; 0; 0] =
  (true,
   1 / 2 *
   (- atan2_by_cases
        (v2 (first_order_rotate (mkVec3 1 0 0) (mkVec3 0 0 1)))
        (sqrt (v0 (first_order_rotate (mkVec3 1 0 0) (mkVec3 0 0 1)) *
               v0 (first_order_rotate (mkVec3 1 0 0) (mkVec3 0 0 1)) +
               v1 (first_order_rotate (mkVec3 1 0 0) (mkVec3 0 0 1)) *
               v1 (first_order_rotate (mkVec3 1 0 0) (mkVec3 0 0 1)))) - 1)).
Proof.
  apply (@TiltAngleError_no_remap plain_shot 1 2 [1; 0; 0; 0; 0; 0]).
  - intros y x Hx. apply atan2_by_cases_right_half. exact Hx.
  - pose proof PI2_1. lra.
Defined.

Section PanAngleErrorBound.
Context `{Collaborators}.
Import PanAngleError.

(** When [atan2] takes its values in [-pi, pi] and the target angle lies
    in [-pi, pi], the pan residual is at most pi times the magnitude of
    the scale, in the degenerate case as in the regular one. *)
Theorem PanAngleError_bounded (angle std_deviation : R) (shot : Block) :
  (forall y x : R, - PI <= atan2 y x <= PI) ->
  - PI <= angle <= PI ->
  Rabs (snd (operator_call (ctor angle std_deviation) shot)) <=
  Rabs (1 / std_deviation) * PI.
Proof.
  intros Hatan Hangle. pose proof PI_RGT_0 as Hpi.
  pose proof (Rabs_pos (1 / std_deviation)) as Hs.
  unfold operator_call. cbn [ctor angle_ scale_].
  destruct (Rltb _ 1e-8 && Rltb _ 1e-8); cbn [snd].
  - rewrite Rabs_R0. nra.
  - rewrite Rabs_mult. apply Rmult_le_compat_l; [exact Hs |].
    apply (diff_between_angles_bounded _ angle).
    match goal with
    | |- context [atan2 ?y ?x] => pose proof (Hatan y x)
    end.
    unfold M_PI. lra.
Qed.

End PanAngleErrorBound.

(** [PanAngleError_bounded] on the concrete collaborators, at the rotation
    vector (1,0,0) and the target angle -3. *)
Lemma PanAngleError_bounded_witness :
  Rabs (snd (@PanAngleError.operator_call plain_shot
               (PanAngleError.ctor (-3) 2) [1; 0; 0; 0; 0; 0])) <=
  Rabs (1 / 2) * PI.
Proof.
  apply (@PanAngleError_bounded plain_shot (-3) 2 [1; 0; 0; 0; 0; 0]).
  - intros y x. apply atan2_by_cases_range.
  - pose proof PI2_3_2. lra.
Defined.

Section RollAngleErrorPoles.
Context `{Collaborators}.
Import RollAngleError.

(** The call past its first guard, with the auxiliary axis written with
    [norm] and [vdiv]. *)
Lemma RollAngleError_regular (self : t) (shot : Block) :
  let R := ShotRotationFunctor 0%Z FUNCTOR_NOT_SET [shot] in
  let right := AngleAxisRotatePoint R (mkVec3 1 0 0) in
  let forward := AngleAxisRotatePoint R (mkVec3 0 0 1) in
  let aux := mkVec3 (v1 forward) (- v0 forward) 0 in
  let sin_roll := dot forward (CrossProduct right (vdiv aux (norm aux))) in
  ~ norm aux < 1e-5 ->
  operator_call self shot =
  if Rleb sin_roll (- (1 - 1e-5)) then (true, 0)
  else (true,
        scale_ self * diff_between_angles (asin sin_roll) (angle_ self)).
Proof.
  intros R right forward aux sin_roll Hla.
  assert (Hn : sqrt (v0 aux * v0 aux + v1 aux * v1 aux) = norm aux).
  { unfold norm, squaredNorm. f_equal. cbn [aux v0 v1 v2]. ring. }
  assert (Ha : mkVec3 (v0 aux / norm aux) (v1 aux / norm aux) (v2 aux) =
               vdiv aux (norm aux)).
  { unfold vdiv. f_equal. cbn [aux v2]. unfold Rdiv. ring. }
  apply Rltb_false in Hla.
  unfold operator_call.
  fold R. fold right. fold forward. fold aux.
  rewrite Hn, Ha, Hla.
  fold (dot forward (CrossProduct right (vdiv aux (norm aux)))).
  fold sin_roll.
  replace (1.0) with 1 by lra. reflexivity.
Qed.

(** Past both guards, with [sin_roll] at most 1 and a target angle in
    [-pi/2, pi/2], the roll difference is never remapped: the residual is
    the scale times [asin sin_roll] minus the target angle. *)
Theorem RollAngleError_no_remap (angle std_deviation : R) (shot : Block) :
  let R := ShotRotationFunctor 0%Z FUNCTOR_NOT_SET [shot] in
  let right := AngleAxisRotatePoint R (mkVec3 1 0 0) in
  let forward := AngleAxisRotatePoint R (mkVec3 0 0 1) in
  let aux := mkVec3 (v1 forward) (- v0 forward) 0 in
  let sin_roll := dot forward (CrossProduct right (vdiv aux (norm aux))) in
  ~ norm aux < 1e-5 ->
  - (1 - 1e-5) < sin_roll <= 1 ->
  - (PI / 2) <= angle <= PI / 2 ->
  operator_call (ctor angle std_deviation) shot =
  (true, 1 / std_deviation * (asin sin_roll - angle)).
Proof.
  intros R right forward aux sin_roll Hla [Hlo Hhi] Hangle.
  rewrite (RollAngleError_regular (ctor angle std_deviation) shot Hla).
  fold R right forward aux sin_roll.
  assert (Hg : Rleb sin_roll (- (1 - 1e-5)) = false)
    by (apply Rleb_false; lra).
  rewrite Hg. cbn [ctor scale_ angle_].
  pose proof (asin_bound sin_roll) as Hb.
  rewrite diff_between_angles_mid; [reflexivity |].
  unfold M_PI. lra.
Qed.

(** Only the lower pole is guarded: at [sin_roll = 1] the residual is not
    zeroed but computed from [asin 1 = pi / 2]. *)
Theorem RollAngleError_upper_pole (angle std_deviation : R) (shot : Block) :
  let R := ShotRotationFunctor 0%Z FUNCTOR_NOT_SET [shot] in
  let right := AngleAxisRotatePoint R (mkVec3 1 0 0) in
  let forward := AngleAxisRotatePoint R (mkVec3 0 0 1) in
  let aux := mkVec3 (v1 forward) (- v0 forward) 0 in
  let sin_roll := dot forward (CrossProduct right (vdiv aux (norm aux))) in
  ~ norm aux < 1e-5 ->
  sin_roll = 1 ->
  operator_call (ctor angle std_deviation) shot =
  (true, 1 / std_deviation * diff_between_angles (PI / 2) angle).
Proof.
  intros R right forward aux sin_roll Hla Hone.
  rewrite (RollAngleError_regular (ctor angle std_deviation) shot Hla).
  fold R right forward aux sin_roll.
  assert (Hg : Rleb sin_roll (- (1 - 1e-5)) = false)
    by (apply Rleb_false; lra).
  rewrite Hg, Hone, asin_1. reflexivity.
Qed.

End RollAngleErrorPoles.

(** [RollAngleError_no_remap] on the concrete collaborators, at the
    rotation vector (1,0,0), where [sin_roll] is 0. *)
Lemma RollAngleError_no_remap_witness :
  exists s : R,
    @RollAngleError.operator_call plain_shot (RollAngleError.ctor 1 2)
      [1; 0; 0; 0; 0; 0] = (true, 1 / 2 * (asin s - 1)).
Proof.
  eexists.
  apply (@RollAngleError_no_remap plain_shot 1 2 [1; 0; 0; 0; 0; 0]).
  - unit_length. lra.
  - unit_length. lra.
  - pose proof PI2_1. lra.
Defined.

(** [RollAngleError_upper_pole] on the concrete collaborators, at the
    rotation vector (1,0,1), where [sin_roll] is 1. *)
Lemma RollAngleError_upper_pole_witness :
  @RollAngleError.operator_call plain_shot (RollAngleError.ctor 0 2)
    [1; 0; 1; 0; 0; 0] = (true, 1 / 2 * diff_between_angles (PI / 2) 0).
Proof.
  apply (@RollAngleError_upper_pole plain_shot 0 2 [1; 0; 1; 0; 0; 0]).
  - unit_length. lra.
  - unit_length. lra.
Defined.

(** ** PositionPriorError *)

Section PositionPriorErrorProperties.
Context `{Collaborators}.
Variable SCALE : nat.

(** Under a neutral bias (scale 1, no translation, a rotation that leaves
    the prior in place) the residual is the scale times optical centre
    minus prior.  This is the opposite sign convention to
    AbsolutePositionError: it is the negated residual of that functor for
    the same prior, the same deviation on both axes and the full mask. *)
Theorem PositionPriorError_neutral_bias
    (position_prior shot bias : Block) (std_deviation : R) :
  at_ (offset bias SCALE) 0 = 1 ->
  ShotPositionFunctor 0%Z FUNCTOR_NOT_SET [bias] = mkVec3 0 0 0 ->
  RotatePoint (ShotRotationFunctor 0%Z FUNCTOR_NOT_SET [bias])
              (Map_Vec3 position_prior) = Map_Vec3 position_prior ->
  snd (PositionPriorError.operator_call SCALE
         (PositionPriorError.ctor position_prior std_deviation) shot bias) =
  vscale (1 / std_deviation)
    (vsub (ShotPositionFunctor 0%Z FUNCTOR_NOT_SET [shot])
          (Map_Vec3 position_prior)) /\
  snd (PositionPriorError.operator_call SCALE
         (PositionPriorError.ctor position_prior std_deviation) shot bias) =
  vscale (-1)
    (snd (AbsolutePositionError.operator_call
            (AbsolutePositionError.ctor
               (ShotPositionFunctor 0%Z FUNCTOR_NOT_SET)
               (Map_Vec3 position_prior) std_deviation std_deviation false
               PositionConstraintType.XYZ)
            [shot])).
Proof.
  intros Hscale Ht Hrot.
  unfold PositionPriorError.operator_call, PositionPriorError.ctor.
  cbn [snd PositionPriorError.scale_ PositionPriorError.position_prior_].
  rewrite Hscale, Ht, Hrot.
  unfold AbsolutePositionError.operator_call. cbn [snd].
  rewrite filter_axises_coeffs.
  unfold AbsolutePositionError.HasFlag, AbsolutePositionError.scaled,
    AbsolutePositionError.ctor.
  cbn -[Map_Vec3].
  generalize (Map_Vec3 position_prior). intros prior.
  destruct (ShotPositionFunctor 0%Z FUNCTOR_NOT_SET [shot]) as [x y z].
  unfold vscale, vsub, vadd. cbn [v0 v1 v2].
  split; f_equal; ring.
Qed.

(** With a standard deviation that is not zero, the residual is the zero
    vector exactly when the optical centre of the shot is the prior
    carried through the bias: scaled, rotated and translated. *)
Theorem PositionPriorError_zero_iff
    (position_prior shot bias : Block) (std_deviation : R) :
  std_deviation <> 0 ->
  (snd (PositionPriorError.operator_call SCALE
          (PositionPriorError.ctor position_prior std_deviation) shot bias) =
   mkVec3 0 0 0 <->
   ShotPositionFunctor 0%Z FUNCTOR_NOT_SET [shot] =
   vadd (vscale (at_ bias SCALE)
           (RotatePoint (ShotRotationFunctor 0%Z FUNCTOR_NOT_SET [bias])
                        (Map_Vec3 position_prior)))
        (ShotPositionFunctor 0%Z FUNCTOR_NOT_SET [bias])).
Proof.
  intros Hs. pose proof (Rinv_1_neq_0 _ Hs) as Hk.
  unfold PositionPriorError.operator_call, PositionPriorError.ctor.
  cbn [snd PositionPriorError.scale_ PositionPriorError.position_prior_].
  rewrite at_offset, Nat.add_0_r.
  generalize (at_ bias SCALE). intros k.
  destruct (RotatePoint _ (Map_Vec3 position_prior)) as [rx ry rz].
  destruct (ShotPositionFunctor 0%Z FUNCTOR_NOT_SET [bias]) as [tx ty tz].
  destruct (ShotPositionFunctor 0%Z FUNCTOR_NOT_SET [shot]) as [x y z].
  unfold vscale, vsub, vadd. cbn [v0 v1 v2].
  split; intros E; injection E as E0 E1 E2.
  - apply Rmult_integral in E0, E1, E2.
    destruct E0 as [E0 | E0]; [contradiction |].
    destruct E1 as [E1 | E1]; [contradiction |].
    destruct E2 as [E2 | E2]; [contradiction |].
    f_equal; lra.
  - subst. f_equal; ring.
Qed.

End PositionPriorErrorProperties.

(** [PositionPriorError_neutral_bias] on the concrete collaborators, with
    the scale at offset 6 of the bias block. *)
Lemma PositionPriorError_neutral_bias_witness :
  snd (@PositionPriorError.operator_call plain_shot 6
         (PositionPriorError.ctor [1; 2; 3] 2)
         [0; 0; 0; -4; -5; -6] [0; 0; 0; 0; 0; 0; 1]) =
  vscale (1 / 2) (vsub (mkVec3 (- -4) (- -5) (- -6)) (mkVec3 1 2 3)).
Proof.
  apply (@PositionPriorError_neutral_bias plain_shot 6
           [1; 2; 3] [0; 0; 0; -4; -5; -6] [0; 0; 0; 0; 0; 0; 1] 2).
  - reflexivity.
  - cbn. f_equal; ring.
  - cbn [plain_shot RotatePoint ShotRotationFunctor].
    unfold first_order_rotate, CrossProduct, Map_Vec3, block, at_.
    cbn [v0 v1 v2 nth Z.to_nat]. f_equal; ring.
Defined.

(** [PositionPriorError_zero_iff] on the concrete collaborators: the bias
    doubles the prior (1,2,3) and moves it by (1,1,1), and the shot sits at
    (3,5,7). *)
Lemma PositionPriorError_zero_iff_witness :
  snd (@PositionPriorError.operator_call plain_shot 6
         (PositionPriorError.ctor [1; 2; 3] 2)
         [0; 0; 0; -3; -5; -7] [0; 0; 0; -1; -1; -1; 2]) = mkVec3 0 0 0.
Proof.
  apply (proj2 (@PositionPriorError_zero_iff plain_shot 6
                  [1; 2; 3] [0; 0; 0; -3; -5; -7]
                  [0; 0; 0; -1; -1; -1; 2] 2 ltac:(lra))).
  cbn [plain_shot RotatePoint ShotRotationFunctor ShotPositionFunctor].
  unfold first_order_rotate, CrossProduct, Map_Vec3, vadd, vscale, block, at_.
  cbn [v0 v1 v2 nth Z.to_nat]. f_equal; ring.
Defined.
